(** * A TTL-aware cache store on an embedded SQL table

    Shallow embedding of the Bun store of cache-manager-bun-sqlite
    ([bunSqliteStore], TypeScript).  The store is a closure over a database
    handle, a serializer pair, a default TTL, a cacheability predicate and a
    mutable purge cursor.  Every operation is an [async] function; awaited
    sequentially they are ordinary stateful procedures, modelled here in a
    state-and-exception monad over the table, the purge cursor and the wall
    clock.

    Conventions.  Times are epoch milliseconds and TTLs whole seconds, both
    in [Z].  Each [Date.now()] consumes the next reading of the clock, so
    two readings inside one call may differ.  The codec functions are
    library code and enter as parameters that return a payload or throw.
    Calls into the SQL engine succeed, except for the statement with an
    empty [VALUES] list that [mset] builds from an empty batch.  JavaScript
    numbers are doubles: the integer arithmetic here is theirs as long as
    the times involved are integers between 0 and 2^53 ([safe_time]), and
    statements about a computed difference of times carry that bound. *)

From stdpp Require Import gmap strings list fin_maps pretty.

Local Open Scope Z_scope.

(** ** JavaScript values (the fragment the store inspects) *)

#[warnings="-register-all"]
Inductive JsValue :=
| JUndefined
| JNull
| JBool (b : bool)
| JNum (n : Z)
| JBigInt (n : Z)
| JStr (s : string)
| JArr (items : list JsValue)
| JObj (fields : list (string * JsValue))
| JFun (source : string).

(** What the column [val] holds: JSON text or a CBOR buffer. *)
Inductive Payload :=
| PText (s : string)
| PBytes (b : list Z).

(** Template-literal conversion [`${value}`].  A number is printed in plain
    decimal, which is what JavaScript prints for integers of magnitude
    below 10^21; nothing proved below depends on the text of a number. *)
Fixpoint ToString (v : JsValue) : string :=
  match v with
  | JUndefined => "undefined"
  | JNull => "null"
  | JBool true => "true"
  | JBool false => "false"
  | JNum n => pretty n
  | JBigInt n => pretty n
  | JStr s => s
  | JArr items =>
      String.concat ","
        (map (fun x => match x with
                       | JUndefined | JNull => EmptyString
                       | _ => ToString x
                       end) items)
  | JObj _ => "[object Object]"
  | JFun source => source
  end.

(** The double-quote character of the error message. *)
Definition dquote : string := String (Ascii.ascii_of_nat 34) EmptyString.

(** ** Exceptions and the effect monad *)

Inductive Exn :=
| NoCacheableError (message : string)
| CodecError (message : string)
| SqliteError (message : string).

(** [interface CacheRow] *)
Record CacheRow := mkCacheRow {
  key : string;
  val : Payload;
  created_at : Z;
  expire_at : Z
}.

(** The non-key columns of one row; the table is keyed by its
    [key TEXT PRIMARY KEY] column. *)
Record Columns := mkColumns {
  col_val : Payload;
  col_created_at : Z;
  col_expire_at : Z
}.

Definition row_of (k : string) (c : Columns) : CacheRow :=
  mkCacheRow k (col_val c) (col_created_at c) (col_expire_at c).

Definition columns_of (r : CacheRow) : Columns :=
  mkColumns (val r) (created_at r) (expire_at r).

(** Mutable state an operation can touch: the table [name] of the database,
    the closure variable [lastPurgeTime], and the wall clock.  [Date.now()]
    answers [clock reads] and moves to the next reading. *)
Record World := mkWorld {
  table : gmap string Columns;
  lastPurgeTime : Z;
  clock : nat -> Z;
  reads : nat
}.

Inductive Outcome (A : Type) :=
| Return (a : A)
| Throw (e : Exn).
Arguments Return {A} a.
Arguments Throw {A} e.

Definition Js (A : Type) : Type := World -> Outcome A * World.

#[global] Instance Js_ret : MRet Js := fun A a w => (Return a, w).

#[global] Instance Js_bind : MBind Js := fun A B f m w =>
  match m w with
  | (Return a, w') => f a w'
  | (Throw e, w') => (Throw e, w')
  end.

Definition throw {A} (e : Exn) : Js A := fun w => (Throw e, w).

(** A call into a library function that either returns or throws. *)
Definition call {A} (r : Exn + A) : Js A :=
  match r with
  | inl e => throw e
  | inr a => mret a
  end.

Definition Date_now : Js Z := fun w =>
  (Return (clock w (reads w)),
   mkWorld (table w) (lastPurgeTime w) (clock w) (S (reads w))).

Definition read_table : Js (gmap string Columns) := fun w => (Return (table w), w).

Definition write_table (t : gmap string Columns) : Js unit := fun w =>
  (Return tt, mkWorld t (lastPurgeTime w) (clock w) (reads w)).

Definition read_lastPurgeTime : Js Z := fun w => (Return (lastPurgeTime w), w).

Definition write_lastPurgeTime (t : Z) : Js unit := fun w =>
  (Return tt, mkWorld (table w) t (clock w) (reads w)).

(** ** The SQL statements the store prepares *)

(** [DELETE FROM name WHERE expire_at < ?] *)
Definition sql_delete_expired (now : Z) (t : gmap string Columns) : gmap string Columns :=
  filter (fun kc => ¬ (col_expire_at kc.2 < now)) t.

(** One row of [INSERT OR REPLACE INTO name(key, val, created_at, expire_at)]. *)
Definition sql_upsert (r : CacheRow) (t : gmap string Columns) : gmap string Columns :=
  <[key r := columns_of r]> t.

(** The multi-row form: rows are applied left to right. *)
Definition sql_upsert_many (rows : list CacheRow) (t : gmap string Columns)
  : gmap string Columns :=
  foldl (fun acc r => sql_upsert r acc) t rows.

(** [SELECT * FROM name WHERE key = ? AND expire_at > ? LIMIT 1] *)
Definition sql_select_live (k : string) (now : Z) (t : gmap string Columns)
  : list CacheRow :=
  match t !! k with
  | Some c => if bool_decide (col_expire_at c > now) then [row_of k c] else []
  | None => []
  end.

(** [SELECT * FROM name WHERE key IN (...) AND expire_at > ?] *)
Definition sql_select_live_in (ks : list string) (now : Z) (t : gmap string Columns)
  : list CacheRow :=
  (fun kc => row_of kc.1 kc.2) <$>
    filter (fun kc => bool_decide (kc.1 ∈ ks) && bool_decide (col_expire_at kc.2 > now))
      (map_to_list t).

(** [SELECT key FROM name] *)
Definition sql_select_keys (t : gmap string Columns) : list CacheRow :=
  (fun kc => row_of kc.1 kc.2) <$> map_to_list t.

(** [SELECT expire_at FROM name WHERE key = ?] *)
Definition sql_select_by_key (k : string) (t : gmap string Columns) : list CacheRow :=
  match t !! k with
  | Some c => [row_of k c]
  | None => []
  end.

(** [DELETE FROM name WHERE key IN (...)] *)
Definition sql_delete_in (ks : list string) (t : gmap string Columns) : gmap string Columns :=
  foldl (fun acc k => delete k acc) t ks.

(** ** Configuration *)

Record Serializer := mkSerializer {
  serialize : JsValue -> Exn + Payload;
  deserialize : Payload -> Exn + JsValue
}.

Inductive SerializerName := json | cbor.

Record SqliteCacheOptions := mkOptions {
  opt_name : option string;
  opt_path : option string;
  opt_serializer : option SerializerName;
  opt_ttl : option Z;
  opt_isCacheable : option (JsValue -> bool)
}.

(** The variables the closure returned by [bunSqliteStore] captures. *)
Record Store := mkStore {
  name : string;
  serializerAdapter : Serializer;
  defaultTtl : Z;
  isCacheable : JsValue -> bool
}.

(** [value !== undefined && value !== null && typeof value !== 'function'] *)
Definition default_isCacheable (value : JsValue) : bool :=
  match value with
  | JUndefined | JNull | JFun _ => false
  | _ => true
  end.

Section Codecs.
(** [JSON.stringify], [JSON.parse] and cbor-x's [encode], [decode] are
    library functions: they are taken as given. *)
Variable JSON_stringify : JsValue -> Exn + Payload.
Variable JSON_parse : Payload -> Exn + JsValue.
Variable encode : JsValue -> Exn + Payload.
Variable decode : Payload -> Exn + JsValue.

Definition serializers (s : SerializerName) : Serializer :=
  match s with
  | json => mkSerializer JSON_stringify JSON_parse
  | cbor => mkSerializer encode decode
  end.

(** Defaults: [name = 'cache'], [serializer = 'cbor'],
    [ttl = 24 * 60 * 60] seconds. *)
Definition bunSqliteStore (options : SqliteCacheOptions) : Store :=
  let ttl := default (24 * 60 * 60) (opt_ttl options) in
  {| name := default "cache"%string (opt_name options);
     serializerAdapter := serializers (default cbor (opt_serializer options));
     defaultTtl := ttl * 1000;
     isCacheable := default default_isCacheable (opt_isCacheable options) |}.
End Codecs.

(** The state a freshly constructed store starts from: [lastPurgeTime = 0]. *)
Definition fresh_world (t : gmap string Columns) (clk : nat -> Z) : World :=
  mkWorld t 0 clk 0.

(** ** The store operations *)

Section Operations.
Variable st : Store.

Definition not_cacheable_message (value : JsValue) : string :=
  (dquote ++ ToString value ++ dquote ++ " is not a cacheable value")%string.

Definition purgeExpired : Js unit :=
  now ← Date_now;
  last ← read_lastPurgeTime;
  if bool_decide (now - last >= 60 * 60 * 1000) then
    t ← read_table;
    write_table (sql_delete_expired now t);;
    write_lastPurgeTime now
  else mret tt.

Definition ttl_millis (ttl : option Z) : Z :=
  match ttl with
  | Some s => s * 1000
  | None => defaultTtl st
  end.

Definition set (k : string) (value : JsValue) (ttl : option Z) : Js unit :=
  let ttlValue := ttl_millis ttl in
  if bool_decide (ttlValue < 0) then mret tt
  else if negb (isCacheable st value) then
    throw (NoCacheableError (not_cacheable_message value))
  else
    t1 ← Date_now;
    let expireAt := t1 + ttlValue in
    serializedVal ← call (serialize (serializerAdapter st) value);
    t2 ← Date_now;
    t ← read_table;
    write_table (sql_upsert (mkCacheRow k serializedVal t2 expireAt) t).

Definition get (k : string) : Js JsValue :=
  purgeExpired;;
  now ← Date_now;
  t ← read_table;
  match sql_select_live k now t with
  | row :: _ => call (deserialize (serializerAdapter st) (val row))
  | [] => mret JUndefined
  end.

Definition del (k : string) : Js unit :=
  t ← read_table;
  write_table (delete k t).

(** The callback of [pairs.flatMap]: one group of four bindings. *)
Definition mset_binding (expireAt : Z) (p : string * JsValue) : Js CacheRow :=
  if negb (isCacheable st p.2) then
    throw (NoCacheableError (not_cacheable_message p.2))
  else
    s ← call (serialize (serializerAdapter st) p.2);
    t ← Date_now;
    mret (mkCacheRow p.1 s t expireAt).

Fixpoint mset_bindings (expireAt : Z) (pairs : list (string * JsValue))
  : Js (list CacheRow) :=
  match pairs with
  | [] => mret []
  | p :: rest =>
      r ← mset_binding expireAt p;
      rs ← mset_bindings expireAt rest;
      mret (r :: rs)
  end.

Definition mset (pairs : list (string * JsValue)) (ttl : option Z) : Js unit :=
  let ttlValue := ttl_millis ttl in
  if bool_decide (ttlValue < 0) then mret tt
  else
    t1 ← Date_now;
    let expireAt := t1 + ttlValue in
    bindings ← mset_bindings expireAt pairs;
    (* an empty VALUES list is not a statement the engine accepts *)
    match bindings with
    | [] => throw (SqliteError "incomplete input")
    | _ =>
        t ← read_table;
        write_table (sql_upsert_many bindings t)
    end.

Fixpoint mget_slots (rows : list CacheRow) (ks : list string) : Js (list JsValue) :=
  match ks with
  | [] => mret []
  | k :: rest =>
      v ← match List.find (fun r => bool_decide (key r = k)) rows with
          | Some row => call (deserialize (serializerAdapter st) (val row))
          | None => mret JUndefined
          end;
      vs ← mget_slots rows rest;
      mret (v :: vs)
  end.

Definition mget (ks : list string) : Js (list JsValue) :=
  purgeExpired;;
  now ← Date_now;
  t ← read_table;
  mget_slots (sql_select_live_in ks now t) ks.

Definition mdel (ks : list string) : Js unit :=
  t ← read_table;
  write_table (sql_delete_in ks t).

Definition keys : Js (list string) :=
  purgeExpired;;
  t ← read_table;
  mret (key <$> sql_select_keys t).

Definition reset : Js unit :=
  write_table ∅.

Definition ttlFn (k : string) : Js Z :=
  purgeExpired;;
  t ← read_table;
  match sql_select_by_key k t with
  | row :: _ =>
      now ← Date_now;
      mret (expire_at row - now)
  | [] => mret (-1)
  end.
End Operations.

(** ** Stand-in codec and fixtures for concrete runs

    A small codec with the failure modes of the real ones: it refuses a
    BigInt the way [JSON.stringify] does and rejects a payload it cannot
    parse. *)

Definition sample_stringify (v : JsValue) : Exn + Payload :=
  match v with
  | JNum n => inr (PBytes [n])
  | JStr s => inr (PText s)
  | JBigInt _ => inl (CodecError "cannot serialize BigInt")
  | _ => inl (CodecError "unsupported value")
  end.

Definition sample_parse (p : Payload) : Exn + JsValue :=
  match p with
  | PBytes [n] => inr (JNum n)
  | PText s =>
      if bool_decide (s = "~junk~"%string)
      then inl (CodecError "unexpected token")
      else inr (JStr s)
  | _ => inl (CodecError "unexpected end of input")
  end.

Definition sample_store : Store :=
  bunSqliteStore sample_stringify sample_parse sample_stringify sample_parse
    (mkOptions None None None None None).

(** A clock that advances one millisecond per reading, and one that is read
    several times within the same millisecond. *)
Definition ticking (t0 : Z) : nat -> Z := fun n => t0 + Z.of_nat n.
Definition frozen (t0 : Z) : nat -> Z := fun _ => t0.

Definition monotone (clk : nat -> Z) : Prop :=
  forall i j : nat, (i <= j)%nat -> clk i <= clk j.

Definition T0 : Z := 1700000000000.

(** ** The purge sweep as a state transformer *)

Definition sweep_due (w : World) : bool :=
  bool_decide (clock w (reads w) - lastPurgeTime w >= 60 * 60 * 1000).

Definition purge_world (w : World) : World :=
  let now := clock w (reads w) in
  if sweep_due w
  then mkWorld (sql_delete_expired now (table w)) now (clock w) (S (reads w))
  else mkWorld (table w) (lastPurgeTime w) (clock w) (S (reads w)).

(** The world after [n] further clock readings, with table [t]. *)
Definition advance (n : nat) (t : gmap string Columns) (w : World) : World :=
  mkWorld t (lastPurgeTime w) (clock w) (n + reads w).

(** Unfold the monad plumbing of a run. *)
Ltac js_unfold :=
  unfold mbind, mret, Js_bind, Js_ret, call, throw, Date_now, read_table,
    write_table, read_lastPurgeTime, write_lastPurgeTime in *;
  cbn [fst snd table lastPurgeTime clock reads] in *.

(** ** What a read answers for one key

    The answer of a read for key [k] against table [t] at query time [now]:
    the decoded payload of a live row, [undefined] otherwise.  [get] and
    every position of [mget] are shown below to compute exactly this. *)
Definition slot (st : Store) (t : gmap string Columns) (now : Z) (k : string)
  : Exn + JsValue :=
  match t !! k with
  | Some c =>
      if bool_decide (col_expire_at c > now)
      then deserialize (serializerAdapter st) (col_val c)
      else inr JUndefined
  | None => inr JUndefined
  end.

(** The answers for a list of keys, left to right, stopping at the first
    decode failure. *)
Fixpoint slots (st : Store) (t : gmap string Columns) (now : Z) (ks : list string)
  : Exn + list JsValue :=
  match ks with
  | [] => inr []
  | k :: rest =>
      match slot st t now k with
      | inl e => inl e
      | inr v =>
          match slots st t now rest with
          | inl e => inl e
          | inr vs => inr (v :: vs)
          end
      end
  end.

Definition outcome_of {A} (r : Exn + A) : Outcome A :=
  match r with
  | inl e => Throw e
  | inr a => Return a
  end.

(** The world a read leaves behind: swept if due, two clock readings on. *)
Definition after_read (w : World) : World :=
  advance 1 (table (purge_world w)) (purge_world w).

(** A time the code computes with exactly: an integer number of
    milliseconds from 0 to 2^53, the range in which doubles hold every
    integer and the difference of two of them. *)
Definition safe_time (t : Z) : Prop := 0 <= t <= 2 ^ 53.

(** [w'] holds the rows of [w] minus what a sweep at the current reading of
    [w] deletes, if that sweep is due; no row is added or altered. *)
Definition swept_from (w w' : World) : Prop :=
  forall (k : string) (c : Columns),
    table w' !! k = Some c <->
    table w !! k = Some c /\
    (clock w (reads w) - lastPurgeTime w >= 60 * 60 * 1000 ->
     clock w (reads w) <= col_expire_at c).

(** ** Facts about the clock and the sweep *)

Lemma ticking_monotone t0 : monotone (ticking t0).
Proof. intros i j Hij. unfold ticking. lia. Qed.

Lemma frozen_monotone t0 : monotone (frozen t0).
Proof. intros i j _. unfold frozen. lia. Qed.

Lemma purgeExpired_run w : purgeExpired w = (Return tt, purge_world w).
Proof.
  unfold purgeExpired, purge_world, sweep_due. js_unfold.
  destruct (bool_decide _); reflexivity.
Qed.

Lemma purge_world_clock w : clock (purge_world w) = clock w.
Proof. unfold purge_world. destruct (sweep_due w); reflexivity. Qed.

Lemma purge_world_reads w : reads (purge_world w) = S (reads w).
Proof. unfold purge_world. destruct (sweep_due w); reflexivity. Qed.

Lemma purge_world_lookup (w : World) (k : string) (c : Columns) :
  table (purge_world w) !! k = Some c <->
  table w !! k = Some c /\
  (sweep_due w = true -> clock w (reads w) <= col_expire_at c).
Proof.
  unfold purge_world. destruct (sweep_due w) eqn:Hdue; cbn.
  - unfold sql_delete_expired. rewrite map_lookup_filter_Some. cbn.
    split; intros [H1 H2]; split; auto; [intros _|specialize (H2 eq_refl)]; lia.
  - split; [intros H; split; [done | discriminate] | tauto].
Qed.

Lemma purge_world_lookup_None (w : World) (k : string) :
  table w !! k = None -> table (purge_world w) !! k = None.
Proof.
  intros Hnone. destruct (table (purge_world w) !! k) as [c|] eqn:E; [|done].
  apply purge_world_lookup in E as [E _]. congruence.
Qed.

(** ** Runs of the single-key operations *)

Lemma get_run (st : Store) (k : string) (w : World) :
  get st k w =
    let w1 := purge_world w in
    let w2 := advance 1 (table w1) w1 in
    match table w1 !! k with
    | Some c =>
        if bool_decide (col_expire_at c > clock w (S (reads w))) then
          match deserialize (serializerAdapter st) (col_val c) with
          | inl e => (Throw e, w2)
          | inr v => (Return v, w2)
          end
        else (Return JUndefined, w2)
    | None => (Return JUndefined, w2)
    end.
Proof.
  unfold get. unfold mbind at 1, Js_bind at 1. rewrite purgeExpired_run.
  pose proof (purge_world_clock w) as Hc. pose proof (purge_world_reads w) as Hr.
  js_unfold. unfold sql_select_live, advance. cbn. rewrite Hc, Hr.
  destruct (table (purge_world w) !! k) as [c|]; [|reflexivity].
  destruct (bool_decide _); [|reflexivity].
  cbn. destruct (deserialize _ _); reflexivity.
Qed.

Lemma set_run (st : Store) (k : string) (v : JsValue) (ttl : option Z) (w : World) :
  set st k v ttl w =
    if bool_decide (ttl_millis st ttl < 0) then (Return tt, w)
    else if negb (isCacheable st v) then
      (Throw (NoCacheableError (not_cacheable_message v)), w)
    else
      match serialize (serializerAdapter st) v with
      | inl e => (Throw e, advance 1 (table w) w)
      | inr b =>
          (Return tt,
           advance 2
             (<[k := mkColumns b (clock w (S (reads w)))
                       (clock w (reads w) + ttl_millis st ttl)]> (table w)) w)
      end.
Proof.
  unfold set. destruct (bool_decide _); [reflexivity|].
  destruct (negb _); [reflexivity|].
  js_unfold. unfold advance.
  destruct (serialize _ _); reflexivity.
Qed.

Lemma ttlFn_run (k : string) (w : World) :
  ttlFn k w =
    let w1 := purge_world w in
    match table w1 !! k with
    | Some c => (Return (col_expire_at c - clock w (S (reads w))),
                 advance 1 (table w1) w1)
    | None => (Return (-1), w1)
    end.
Proof.
  unfold ttlFn. unfold mbind at 1, Js_bind at 1. rewrite purgeExpired_run.
  pose proof (purge_world_clock w) as Hc. pose proof (purge_world_reads w) as Hr.
  js_unfold. unfold sql_select_by_key, advance.
  destruct (table (purge_world w) !! k) as [c|]; [|reflexivity].
  cbn. rewrite Hc, Hr. reflexivity.
Qed.

(** A key whose row is missing, or expired at the moment [get] reads the
    clock for its query, is a miss. *)
Lemma get_miss (st : Store) (k : string) (w : World) :
  (forall c, table w !! k = Some c -> col_expire_at c <= clock w (S (reads w))) ->
  fst (get st k w) = Return JUndefined.
Proof.
  intros Hexp. rewrite get_run. cbn zeta.
  destruct (table (purge_world w) !! k) as [c|] eqn:E; [|reflexivity].
  apply purge_world_lookup in E as [E _]. apply Hexp in E.
  rewrite bool_decide_eq_false_2 by lia. reflexivity.
Qed.

(** ** Runs of the batch write *)

(** Computing the bindings of a batch reads the clock but writes nothing. *)
Lemma mset_bindings_frame (st : Store) (expireAt : Z) (pairs : list (string * JsValue)) :
  forall w : World,
    let w' := snd (mset_bindings st expireAt pairs w) in
    table w' = table w /\ lastPurgeTime w' = lastPurgeTime w /\ clock w' = clock w.
Proof.
  induction pairs as [|p rest IH]; intros w; [by cbn|].
  cbn [mset_bindings]. unfold mset_binding.
  destruct (isCacheable st p.2); cbn [negb]; [|by js_unfold].
  js_unfold. destruct (serialize _ _) as [e|b]; [by cbn|].
  cbn.
  specialize (IH (mkWorld (table w) (lastPurgeTime w) (clock w) (S (reads w)))).
  cbn zeta in IH.
  destruct (mset_bindings st expireAt rest _) as [[rs|e] w1]; cbn in *; exact IH.
Qed.

(** A batch holding a rejected value never gets past its bindings. *)
Lemma mset_bindings_rejected (st : Store) (expireAt : Z) (pairs : list (string * JsValue)) :
  Exists (fun p => isCacheable st p.2 = false) pairs ->
  forall w : World, exists e, fst (mset_bindings st expireAt pairs w) = Throw e.
Proof.
  induction 1 as [p rest Hp | p rest _ IH]; intros w.
  - cbn [mset_bindings]. unfold mset_binding. rewrite Hp. js_unfold. cbn. eauto.
  - cbn [mset_bindings]. unfold mset_binding.
    destruct (isCacheable st p.2); cbn [negb]; [|js_unfold; cbn; eauto].
    js_unfold. destruct (serialize _ _) as [e|b]; [cbn; eauto|].
    cbn.
    destruct (IH (mkWorld (table w) (lastPurgeTime w) (clock w) (S (reads w)))) as [e He].
    destruct (mset_bindings st expireAt rest _) as [[rs|e'] w1]; cbn in *; [done|eauto].
Qed.

(** When everything before the first rejected value is accepted and
    serializes, the failure raised is the one naming that value. *)
Lemma mset_bindings_first_rejected (st : Store) (expireAt : Z)
    (pre post : list (string * JsValue)) (k : string) (v : JsValue) :
  Forall (fun p => isCacheable st p.2 = true /\
                   exists b, serialize (serializerAdapter st) p.2 = inr b) pre ->
  isCacheable st v = false ->
  forall w : World,
    fst (mset_bindings st expireAt (pre ++ (k, v) :: post) w)
    = Throw (NoCacheableError (not_cacheable_message v)).
Proof.
  intros Hpre Hv. induction Hpre as [|p pre [Hc [b Hb]] _ IH]; intros w.
  - cbn [app mset_bindings]. unfold mset_binding. cbn [snd]. rewrite Hv.
    js_unfold. reflexivity.
  - cbn [app mset_bindings]. unfold mset_binding. rewrite Hc, Hb. js_unfold. cbn.
    specialize (IH (mkWorld (table w) (lastPurgeTime w) (clock w) (S (reads w)))).
    destruct (mset_bindings st expireAt _ _) as [[rs|e'] w1]; cbn in *; [done|exact IH].
Qed.

Lemma mset_run (st : Store) (pairs : list (string * JsValue)) (ttl : option Z) (w : World) :
  mset st pairs ttl w =
    if bool_decide (ttl_millis st ttl < 0) then (Return tt, w)
    else
      let expireAt := clock w (reads w) + ttl_millis st ttl in
      match mset_bindings st expireAt pairs (advance 1 (table w) w) with
      | (Throw e, w1) => (Throw e, w1)
      | (Return [], w1) => (Throw (SqliteError "incomplete input"), w1)
      | (Return rows, w1) =>
          (Return tt, advance 0 (sql_upsert_many rows (table w1)) w1)
      end.
Proof.
  unfold mset. destruct (bool_decide _); [reflexivity|].
  js_unfold. unfold advance. cbn.
  destruct (mset_bindings _ _ _ _) as [[[|r rs]|e] w1]; reflexivity.
Qed.

(** ** Write then read *)

(** A value the default predicate accepts but the codec does not encode:
    [set(k, 1n)] followed at once by [get(k)] does not return the value, and
    no row was stored for it. *)
Lemma set_then_get_unserializable_value :
  let w := fresh_world ∅ (ticking T0) in
  isCacheable sample_store (JBigInt 1) = true /\
  fst ((set sample_store "k" (JBigInt 1) None;; get sample_store "k") w)
  <> Return (JBigInt 1) /\
  table (snd (set sample_store "k" (JBigInt 1) None w)) !! "k"%string = None /\
  fst (get sample_store "k" (snd (set sample_store "k" (JBigInt 1) None w)))
  = Return JUndefined.
Proof. vm_compute. repeat split; intros; first [reflexivity | discriminate]. Qed.

(** C1 (amended): for a key [k] and a value [v] that the cacheability
    predicate accepts and that the codec serializes and deserializes back to
    [v], with a clock that does not run backwards, [set(k, v)] with the
    default TTL followed at once by [get(k)], the entry not yet expired when
    [get] queries it, stores the serialized payload and returns [v]: the
    value travels through the row as [deserialize (serialize v)]. *)
Theorem set_then_get_returns_value (st : Store) (k : string) (v : JsValue)
    (b : Payload) (w : World) :
  monotone (clock w) ->
  isCacheable st v = true ->
  serialize (serializerAdapter st) v = inr b ->
  deserialize (serializerAdapter st) b = inr v ->
  clock w (3 + reads w)%nat < clock w (reads w) + defaultTtl st ->
  exists w1 w2,
    set st k v None w = (Return tt, w1) /\
    table w1 !! k =
      Some (mkColumns b (clock w (S (reads w))) (clock w (reads w) + defaultTtl st)) /\
    get st k w1 = (Return v, w2) /\
    (set st k v None;; get st k) w = (Return v, w2).
Proof.
  intros Hmono Hc Hser Hdes Hlive.
  change (3 + reads w)%nat with (S (S (S (reads w)))) in Hlive.
  assert (H03 : clock w (reads w) <= clock w (S (S (S (reads w))))) by (apply Hmono; lia).
  assert (H23 : clock w (S (S (reads w))) <= clock w (S (S (S (reads w)))))
    by (apply Hmono; lia).
  pose proof (set_run st k v None w) as Hset. cbn [ttl_millis] in Hset.
  rewrite bool_decide_eq_false_2 in Hset by lia.
  rewrite Hc, Hser in Hset. cbn [negb] in Hset.
  set (c := mkColumns b (clock w (S (reads w))) (clock w (reads w) + defaultTtl st)) in *.
  set (w1 := advance 2 (<[k:=c]> (table w)) w) in *.
  assert (Hrow : table w1 !! k = Some c) by (subst w1; cbn; apply lookup_insert_eq).
  assert (Hget : exists w2, get st k w1 = (Return v, w2)).
  { rewrite get_run. cbn zeta.
    assert (Hp : table (purge_world w1) !! k = Some c).
    { apply purge_world_lookup. split; [exact Hrow|]. intros _.
      subst w1 c. cbn. lia. }
    rewrite Hp. subst w1 c. cbn [col_expire_at col_val advance clock reads].
    rewrite bool_decide_eq_true_2 by (cbn in *; lia).
    rewrite Hdes. eauto. }
  destruct Hget as [w2 Hget].
  exists w1, w2. repeat split; try assumption.
  unfold mbind, Js_bind. rewrite Hset. exact Hget.
Qed.

Lemma set_then_get_returns_value_witness :
  exists w1 w2,
    set sample_store "k" (JStr "v") None (fresh_world ∅ (ticking T0)) = (Return tt, w1) /\
    table w1 !! "k"%string =
      Some (mkColumns (PText "v") (T0 + 1) (T0 + 86400000)) /\
    get sample_store "k" w1 = (Return (JStr "v"), w2) /\
    (set sample_store "k" (JStr "v") None;; get sample_store "k")
      (fresh_world ∅ (ticking T0)) = (Return (JStr "v"), w2).
Proof.
  apply (set_then_get_returns_value sample_store "k" (JStr "v") (PText "v")
           (fresh_world ∅ (ticking T0))).
  - intros i j Hij. cbn. unfold ticking. lia.
  - reflexivity.
  - reflexivity.
  - reflexivity.
  - vm_compute. reflexivity.
Defined.

(** ** Enumeration *)

(** [keys()] on a store that swept at [T0], then wrote ["k"] with a zero
    TTL: three milliseconds on, the sweep is not due again and the expired
    row is still listed. *)
Lemma keys_lists_expired_row :
  let w1 := snd ((keys;; set sample_store "k" (JStr "v") (Some 0))
                   (fresh_world ∅ (ticking T0))) in
  table w1 !! "k"%string = Some (mkColumns (PText "v") (T0 + 2) (T0 + 1)) /\
  clock w1 (reads w1) = T0 + 3 /\
  T0 + 1 <= clock w1 (reads w1) /\
  fst (keys w1) = Return ["k"%string].
Proof. vm_compute. repeat split; discriminate. Qed.

(** C2 (amended): [keys()] lists the rows physically present once its
    opportunistic sweep has run.  A key is returned exactly when its row is
    in the table and, if the sweep is due (an hour or more since the last
    one), its [expire_at] is not below the current time.  Expired rows the
    sweep leaves behind are listed. *)
Theorem keys_lists_rows_left_by_sweep (w : World) :
  exists ks,
    keys w = (Return ks, purge_world w) /\
    forall k : string,
      k ∈ ks <->
      exists c, table w !! k = Some c /\
                (sweep_due w = true -> clock w (reads w) <= col_expire_at c).
Proof.
  exists (key <$> sql_select_keys (table (purge_world w))). split.
  - unfold keys. unfold mbind at 1, Js_bind at 1. rewrite purgeExpired_run.
    js_unfold. reflexivity.
  - intros k. unfold sql_select_keys. rewrite <- list_fmap_compose.
    rewrite list_elem_of_fmap. split.
    + intros [[k' c] [-> Hin]]. cbn. apply elem_of_map_to_list in Hin.
      exists c. by apply purge_world_lookup.
    + intros [c Hc]. apply purge_world_lookup in Hc.
      exists (k, c). split; [reflexivity|]. by apply elem_of_map_to_list.
Qed.

(** ** Codec failures *)

(** C3: a live row whose payload the codec cannot decode.  [get] has no
    handler around [deserialize]: the decode error reaches the caller. *)
Lemma get_junk_payload_throws :
  let w := mkWorld {["foo"%string := mkColumns (PText "~junk~") T0 (T0 + 36000)]}
             T0 (ticking T0) 0 in
  fst (get sample_store "foo" w) = Throw (CodecError "unexpected token").
Proof. vm_compute. reflexivity. Qed.

(** The same for every store: a live row whose payload fails to decode
    makes [get] throw what the codec threw. *)
Lemma get_decode_error_propagates (st : Store) (k : string) (c : Columns)
    (e : Exn) (w : World) :
  monotone (clock w) ->
  table w !! k = Some c ->
  col_expire_at c > clock w (S (reads w)) ->
  deserialize (serializerAdapter st) (col_val c) = inl e ->
  fst (get st k w) = Throw e.
Proof.
  intros Hmono Hrow Hlive Hdes. rewrite get_run. cbn zeta.
  assert (Hp : table (purge_world w) !! k = Some c).
  { apply purge_world_lookup. split; [exact Hrow|]. intros _.
    assert (clock w (reads w) <= clock w (S (reads w))) by (apply Hmono; lia). lia. }
  rewrite Hp, bool_decide_eq_true_2 by exact Hlive.
  rewrite Hdes. reflexivity.
Qed.

(** C4: a cacheable value the codec refuses to encode.  [set] writes no row,
    but the encode error is thrown to the caller instead of being dropped. *)
Lemma set_unserializable_value_throws :
  let w := fresh_world ∅ (ticking T0) in
  isCacheable sample_store (JBigInt 1) = true /\
  fst (set sample_store "k" (JBigInt 1) None w)
    = Throw (CodecError "cannot serialize BigInt") /\
  table (snd (set sample_store "k" (JBigInt 1) None w)) = table w.
Proof. vm_compute. repeat split. Qed.

(** For every store: a failing [serialize] leaves the table as it was and
    throws. *)
Lemma set_encode_error_propagates (st : Store) (k : string) (v : JsValue)
    (ttl : option Z) (e : Exn) (w : World) :
  0 <= ttl_millis st ttl ->
  isCacheable st v = true ->
  serialize (serializerAdapter st) v = inl e ->
  fst (set st k v ttl w) = Throw e /\ table (snd (set st k v ttl w)) = table w.
Proof.
  intros Httl Hc Hser. rewrite set_run.
  rewrite bool_decide_eq_false_2 by lia. rewrite Hc, Hser. by cbn.
Qed.

(** ** Batches with a rejected value *)

(** C5: a batch with a non-negative TTL whose first value is accepted but
    cannot be encoded and whose second value is rejected by the predicate.
    [mset] serializes inside the same callback that tests the predicate,
    with no handler: the failure that reaches the caller is the codec's, not
    [NoCacheableError]. *)
Lemma mset_rejected_value_after_encode_failure :
  let w := fresh_world ∅ (ticking T0) in
  let pairs := [("a"%string, JBigInt 10); ("b"%string, JNull)] in
  0 <= ttl_millis sample_store None /\
  isCacheable sample_store JNull = false /\
  fst (mset sample_store pairs None w) = Throw (CodecError "cannot serialize BigInt") /\
  forall message,
    fst (mset sample_store pairs None w) <> Throw (NoCacheableError message).
Proof.
  vm_compute. repeat split; intros; first [reflexivity | discriminate].
Qed.

(** What holds of a batch with a rejected value: with a non-negative
    effective TTL it writes no row and fails, and the failure is
    [NoCacheableError] for the first rejected value when every value before
    it is accepted and serializes. *)
Theorem mset_rejected_value_writes_nothing (st : Store)
    (pairs : list (string * JsValue)) (ttl : option Z) (w : World) :
  0 <= ttl_millis st ttl ->
  Exists (fun p => isCacheable st p.2 = false) pairs ->
  (exists e w', mset st pairs ttl w = (Throw e, w') /\ table w' = table w) /\
  (forall pre post k v,
     pairs = pre ++ (k, v) :: post ->
     Forall (fun p => isCacheable st p.2 = true /\
                      exists b, serialize (serializerAdapter st) p.2 = inr b) pre ->
     isCacheable st v = false ->
     fst (mset st pairs ttl w) = Throw (NoCacheableError (not_cacheable_message v))).
Proof.
  intros Httl Hrej.
  set (expireAt := clock w (reads w) + ttl_millis st ttl).
  pose proof (mset_run st pairs ttl w) as Hrun.
  rewrite bool_decide_eq_false_2 in Hrun by lia. cbn zeta in Hrun. fold expireAt in Hrun.
  split.
  - destruct (mset_bindings_rejected st expireAt pairs Hrej (advance 1 (table w) w))
      as [e He].
    pose proof (mset_bindings_frame st expireAt pairs (advance 1 (table w) w)) as Hfr.
    cbn zeta in Hfr. destruct Hfr as [Ht _].
    destruct (mset_bindings st expireAt pairs _) as [[rs|e'] w1]; cbn in He, Ht; [done|].
    exists e', w1. split; [exact Hrun | exact Ht].
  - intros pre post k v -> Hpre Hv.
    pose proof (mset_bindings_first_rejected st expireAt pre post k v Hpre Hv
                  (advance 1 (table w) w)) as Hfirst.
    rewrite Hrun.
    destruct (mset_bindings st expireAt _ _) as [[rs|e'] w1]; cbn in Hfirst; [done|].
    cbn. by injection Hfirst as ->.
Qed.

Lemma mset_rejected_value_writes_nothing_witness :
  let w := fresh_world ∅ (ticking T0) in
  let pairs := [("a"%string, JNum 10); ("b"%string, JNull)] in
  (exists e w', mset sample_store pairs None w = (Throw e, w') /\ table w' = table w) /\
  (forall pre post k v,
     pairs = pre ++ (k, v) :: post ->
     Forall (fun p => isCacheable sample_store p.2 = true /\
                      exists b, serialize (serializerAdapter sample_store) p.2 = inr b) pre ->
     isCacheable sample_store v = false ->
     fst (mset sample_store pairs None w)
     = Throw (NoCacheableError (not_cacheable_message v))).
Proof.
  apply (mset_rejected_value_writes_nothing sample_store
           [("a"%string, JNum 10); ("b"%string, JNull)] None
           (fresh_world ∅ (ticking T0))).
  - vm_compute. discriminate.
  - apply Exists_cons_tl, Exists_cons_hd. reflexivity.
Defined.

(** ** Negative TTL *)

(** C6: with [ttlSeconds < 0], [set] returns normally and changes nothing
    at all, so whatever is read next is what would have been read without
    the call, and a key with no live row is a miss; [mset] with a negative
    TTL likewise leaves the whole batch unwritten. *)
Theorem negative_ttl_is_noop (st : Store) (k : string) (v : JsValue)
    (pairs : list (string * JsValue)) (ks : list string) (s : Z) (w : World) :
  s < 0 ->
  set st k v (Some s) w = (Return tt, w) /\
  mset st pairs (Some s) w = (Return tt, w) /\
  (set st k v (Some s);; get st k) w = get st k w /\
  (mset st pairs (Some s);; mget st ks) w = mget st ks w /\
  ((forall c, table w !! k = Some c -> col_expire_at c <= clock w (S (reads w))) ->
   fst ((set st k v (Some s);; get st k) w) = Return JUndefined).
Proof.
  intros Hneg.
  assert (Hset : set st k v (Some s) w = (Return tt, w)).
  { rewrite set_run. cbn [ttl_millis]. by rewrite bool_decide_eq_true_2 by lia. }
  assert (Hmset : mset st pairs (Some s) w = (Return tt, w)).
  { rewrite mset_run. cbn [ttl_millis]. by rewrite bool_decide_eq_true_2 by lia. }
  assert (Hsg : (set st k v (Some s);; get st k) w = get st k w).
  { unfold mbind, Js_bind. by rewrite Hset. }
  repeat split; try assumption.
  - unfold mbind at 1, Js_bind at 1. by rewrite Hmset.
  - intros Hdead. rewrite Hsg. by apply get_miss.
Qed.

Lemma negative_ttl_is_noop_witness :
  let w := fresh_world ∅ (ticking T0) in
  let pairs := [("too1"%string, JNum 1); ("too2"%string, JNum 2)] in
  let ks := ["too1"%string; "too2"%string] in
  set sample_store "k" (JStr "v") (Some (-200)) w = (Return tt, w) /\
  mset sample_store pairs (Some (-200)) w = (Return tt, w) /\
  (set sample_store "k" (JStr "v") (Some (-200));; get sample_store "k") w
  = get sample_store "k" w /\
  (mset sample_store pairs (Some (-200));; mget sample_store ks) w
  = mget sample_store ks w /\
  ((forall c, table w !! "k"%string = Some c ->
              col_expire_at c <= clock w (S (reads w))) ->
   fst ((set sample_store "k" (JStr "v") (Some (-200));; get sample_store "k") w)
   = Return JUndefined).
Proof.
  apply (negative_ttl_is_noop sample_store "k" (JStr "v")
           [("too1"%string, JNum 1); ("too2"%string, JNum 2)]
           ["too1"%string; "too2"%string] (-200) (fresh_world ∅ (ticking T0))).
  lia.
Defined.

(** C10: in [set] the negative-TTL test comes before the cacheability test:
    for a value the predicate rejects and [ttlSeconds < 0] the call returns
    normally, raises no [NoCacheableError] and writes nothing. *)
Theorem set_negative_ttl_skips_cacheability (st : Store) (k : string)
    (v : JsValue) (s : Z) (w : World) :
  isCacheable st v = false ->
  s < 0 ->
  set st k v (Some s) w = (Return tt, w).
Proof.
  intros _ Hneg. rewrite set_run. cbn [ttl_millis].
  by rewrite bool_decide_eq_true_2 by lia.
Qed.

Lemma set_negative_ttl_skips_cacheability_witness :
  isCacheable sample_store JUndefined = false /\
  isCacheable sample_store JNull = false /\
  isCacheable sample_store (JFun "() => {}") = false /\
  set sample_store "k" JUndefined (Some (-1)) (fresh_world ∅ (ticking T0))
  = (Return tt, fresh_world ∅ (ticking T0)).
Proof.
  split; [reflexivity|]. split; [reflexivity|]. split; [reflexivity|].
  apply (set_negative_ttl_skips_cacheability sample_store "k" JUndefined (-1)
           (fresh_world ∅ (ticking T0))).
  - reflexivity.
  - lia.
Defined.

(** With a TTL that is not negative the same value is refused. *)
Lemma set_rejected_value_throws (st : Store) (k : string) (v : JsValue)
    (ttl : option Z) (w : World) :
  isCacheable st v = false ->
  0 <= ttl_millis st ttl ->
  set st k v ttl w = (Throw (NoCacheableError (not_cacheable_message v)), w).
Proof.
  intros Hv Httl. rewrite set_run.
  rewrite bool_decide_eq_false_2 by lia. by rewrite Hv.
Qed.

(** ** Zero TTL *)




(** ** Remaining lifetime *)

(** [ttl(k)] right after [set(k, v, 0)], within the same millisecond: the
    row is expired ([expire_at = now]) and the answer is [0], which is not
    negative. *)
Lemma ttlFn_zero_for_row_expiring_now :
  let w1 := snd (set sample_store "k" (JStr "v") (Some 0) (fresh_world ∅ (frozen T0))) in
  table w1 !! "k"%string = Some (mkColumns (PText "v") T0 T0) /\
  clock w1 (reads w1) = T0 /\
  clock w1 (S (reads w1)) = T0 /\
  fst (ttlFn "k" w1) = Return 0 /\
  ~ (0 < 0).
Proof. vm_compute. repeat split; intros; first [reflexivity | discriminate]. Qed.

(** C8 (amended): for times within [safe_time] and a clock that does not
    run backwards, [ttl(k)] returns exactly [expire_at - now], a positive
    number of milliseconds, when the row of [k] is present with
    [expire_at > now]; it returns [-1] when [k] is absent; and for a row
    that is expired ([expire_at <= now]) it returns a value that is zero or
    negative: [-1] when the sweep of this call removed the row (the sweep
    was due and [expire_at] was below the time the sweep read), and
    [expire_at - now] otherwise, which is [0] when [expire_at = now].  The
    caller tells live from absent or expired by whether the result is
    positive. *)
Theorem ttlFn_positive_iff_live (k : string) (w : World) :
  monotone (clock w) ->
  safe_time (clock w (S (reads w))) ->
  (forall c, table w !! k = Some c -> safe_time (col_expire_at c)) ->
  exists z w',
    ttlFn k w = (Return z, w') /\
    (table w !! k = None -> z = -1) /\
    (forall c, table w !! k = Some c ->
               col_expire_at c > clock w (S (reads w)) ->
               z = col_expire_at c - clock w (S (reads w)) /\ 0 < z) /\
    (forall c, table w !! k = Some c ->
               col_expire_at c <= clock w (S (reads w)) ->
               z <= 0 /\
               (clock w (reads w) - lastPurgeTime w >= 60 * 60 * 1000 /\
                col_expire_at c < clock w (reads w) ->
                z = -1) /\
               (~ (clock w (reads w) - lastPurgeTime w >= 60 * 60 * 1000 /\
                   col_expire_at c < clock w (reads w)) ->
                z = col_expire_at c - clock w (S (reads w)))).
Proof.
  intros Hmono _ _.
  assert (H01 : clock w (reads w) <= clock w (S (reads w))) by (apply Hmono; lia).
  rewrite ttlFn_run. cbn zeta.
  destruct (table (purge_world w) !! k) as [c|] eqn:E.
  - apply purge_world_lookup in E as [E Hkeep].
    unfold sweep_due in Hkeep. rewrite bool_decide_eq_true in Hkeep.
    eexists _, _. split; [reflexivity|]. split; [|split].
    + congruence.
    + intros c' Hc' Hlive. rewrite E in Hc'. injection Hc' as <-. lia.
    + intros c' Hc' Hdead. rewrite E in Hc'. injection Hc' as <-.
      split; [lia|]. split; [|reflexivity].
      intros [Hdue Hbelow]. specialize (Hkeep Hdue). lia.
  - eexists _, _. split; [reflexivity|]. split; [|split].
    + reflexivity.
    + intros c Hc Hlive. exfalso.
      assert (table (purge_world w) !! k = Some c) as Hp; [|congruence].
      apply purge_world_lookup. split; [exact Hc|]. intros _. lia.
    + intros c Hc Hdead. split; [lia|]. split; [reflexivity|].
      intros Hnot. exfalso.
      assert (table (purge_world w) !! k = Some c) as Hp; [|congruence].
      apply purge_world_lookup. split; [exact Hc|].
      unfold sweep_due. rewrite bool_decide_eq_true. intros Hdue.
      destruct (decide (col_expire_at c < clock w (reads w))); [|lia].
      exfalso. apply Hnot. by split.
Qed.

Lemma ttlFn_positive_iff_live_witness :
  let w := mkWorld {["foo"%string := mkColumns (PText "v") T0 (T0 + 86400000)]}
             T0 (ticking T0) 0 in
  exists z w',
    ttlFn "foo" w = (Return z, w') /\
    (table w !! "foo"%string = None -> z = -1) /\
    (forall c, table w !! "foo"%string = Some c ->
               col_expire_at c > clock w (S (reads w)) ->
               z = col_expire_at c - clock w (S (reads w)) /\ 0 < z) /\
    (forall c, table w !! "foo"%string = Some c ->
               col_expire_at c <= clock w (S (reads w)) ->
               z <= 0 /\
               (clock w (reads w) - lastPurgeTime w >= 60 * 60 * 1000 /\
                col_expire_at c < clock w (reads w) ->
                z = -1) /\
               (~ (clock w (reads w) - lastPurgeTime w >= 60 * 60 * 1000 /\
                   col_expire_at c < clock w (reads w)) ->
                z = col_expire_at c - clock w (S (reads w)))).
Proof.
  apply (ttlFn_positive_iff_live "foo"
           (mkWorld {["foo"%string := mkColumns (PText "v") T0 (T0 + 86400000)]}
              T0 (ticking T0) 0)).
  - intros i j Hij. cbn. unfold ticking. lia.
  - vm_compute. split; discriminate.
  - intros c Hc. vm_compute in Hc. injection Hc as <-.
    vm_compute. split; discriminate.
Defined.

(** ** Timestamps of written rows *)

(** C9: [set] and [mset] read the clock once for [expire_at] and again for
    each [created_at].  When the clock moves between the readings the row has
    [expire_at <> created_at + ttl], and the rows of one batch carry
    different [created_at]. *)
Lemma written_rows_read_clock_twice :
  let w := fresh_world ∅ (ticking T0) in
  let w1 := snd (set sample_store "k" (JStr "v") (Some 1) w) in
  let w2 := snd (mset sample_store [("a"%string, JNum 1); ("b"%string, JNum 2)] (Some 1) w) in
  fst (set sample_store "k" (JStr "v") (Some 1) w) = Return tt /\
  table w1 !! "k"%string = Some (mkColumns (PText "v") (T0 + 1) (T0 + 1000)) /\
  T0 + 1000 <> (T0 + 1) + 1 * 1000 /\
  fst (mset sample_store [("a"%string, JNum 1); ("b"%string, JNum 2)] (Some 1) w)
  = Return tt /\
  table w2 !! "a"%string = Some (mkColumns (PBytes [1]) (T0 + 1) (T0 + 1000)) /\
  table w2 !! "b"%string = Some (mkColumns (PBytes [2]) (T0 + 2) (T0 + 1000)) /\
  T0 + 1 <> T0 + 2.
Proof. vm_compute. repeat split; intros; first [reflexivity | discriminate]. Qed.

(** What does hold of a [set] that returns: either the TTL was negative
    and nothing changed, or the row of [k] has [expire_at] equal to the first
    clock reading plus a non-negative TTL and [created_at] equal to the
    second reading. *)
Lemma set_row_timestamps (st : Store) (k : string) (v : JsValue) (ttl : option Z)
    (w w1 : World) :
  set st k v ttl w = (Return tt, w1) ->
  (ttl_millis st ttl < 0 /\ w1 = w) \/
  (0 <= ttl_millis st ttl /\
   exists c, table w1 !! k = Some c /\
             col_expire_at c = clock w (reads w) + ttl_millis st ttl /\
             col_created_at c = clock w (S (reads w))).
Proof.
  rewrite set_run. case_bool_decide as Hneg.
  - intros [= <-]. by left.
  - destruct (negb _); [discriminate|].
    destruct (serialize _ _) as [e|b]; [discriminate|].
    intros [= <-]. right. split; [lia|].
    eexists. split; [cbn; apply lookup_insert_eq|]. by cbn.
Qed.

(** The rows of one batch all carry the [expire_at] computed before the
    batch was walked, and their keys are the keys of the pairs, in order. *)
Lemma mset_bindings_rows (st : Store) (expireAt : Z) (pairs : list (string * JsValue)) :
  forall (w w' : World) (rows : list CacheRow),
    mset_bindings st expireAt pairs w = (Return rows, w') ->
    Forall2 (fun p r => key r = p.1 /\ expire_at r = expireAt /\
                        serialize (serializerAdapter st) p.2 = inr (val r))
      pairs rows.
Proof.
  induction pairs as [|p rest IH]; intros w w' rows.
  - cbn. intros [= <- _]. constructor.
  - cbn [mset_bindings]. unfold mset_binding.
    destruct (isCacheable st p.2); cbn [negb]; [|js_unfold; discriminate].
    js_unfold. destruct (serialize _ _) as [e|b] eqn:Hser; [discriminate|].
    cbn.
    destruct (mset_bindings st expireAt rest _) as [[rs|e'] w1] eqn:Hrest;
      [|discriminate].
    intros [= <- _]. constructor; [by cbn|]. by eapply IH.
Qed.

(** ** Reads, key by key *)

Lemma get_slot (st : Store) (k : string) (w : World) :
  get st k w =
    (outcome_of (slot st (table (purge_world w)) (clock w (S (reads w))) k),
     after_read w).
Proof.
  rewrite get_run. cbn zeta. unfold slot, after_read.
  destruct (table (purge_world w) !! k) as [c|]; [|reflexivity].
  destruct (bool_decide _); [|reflexivity].
  destruct (deserialize _ _); reflexivity.
Qed.

(** In a list of rows with distinct keys, [find] by key returns the row of
    that key. *)
Lemma find_row_by_key (l : list (string * Columns)) (k : string) :
  NoDup l.*1 ->
  List.find (fun r => bool_decide (key r = k)) ((fun kc => row_of kc.1 kc.2) <$> l)
  = match List.find (fun kc => bool_decide (kc.1 = k)) l with
    | Some kc => Some (row_of kc.1 kc.2)
    | None => None
    end.
Proof.
  intros _. induction l as [|[k' c] l IH]; [reflexivity|].
  cbn. destruct (bool_decide (k' = k)); [reflexivity | exact IH].
Qed.

Lemma find_pair_by_key (l : list (string * Columns)) (k : string) (c : Columns) :
  NoDup l.*1 -> (k, c) ∈ l ->
  List.find (fun kc => bool_decide (kc.1 = k)) l = Some (k, c).
Proof.
  induction l as [|[k' c'] l IH]; intros Hnd Hin; [by apply elem_of_nil in Hin|].
  cbn in Hnd. apply NoDup_cons in Hnd as [Hnotin Hnd].
  cbn. case_bool_decide as Hk.
  - subst k'. apply elem_of_cons in Hin as [[= ->]|Hin]; [reflexivity|].
    exfalso. apply Hnotin. apply list_elem_of_fmap. by exists (k, c).
  - apply elem_of_cons in Hin as [[= -> ->]|Hin]; [done|]. by apply IH.
Qed.

Lemma find_pair_by_key_None (l : list (string * Columns)) (k : string) :
  (forall c, (k, c) ∉ l) ->
  List.find (fun kc => bool_decide (kc.1 = k)) l = None.
Proof.
  induction l as [|[k' c'] l IH]; intros Hout; [reflexivity|].
  cbn. case_bool_decide as Hk.
  - subst k'. exfalso. apply (Hout c'). apply elem_of_cons. by left.
  - apply IH. intros c Hin. apply (Hout c). apply elem_of_cons. by right.
Qed.

Lemma NoDup_fst_filter (P : string * Columns -> Prop) `{forall x, Decision (P x)}
    (l : list (string * Columns)) :
  NoDup l.*1 -> NoDup (filter P l).*1.
Proof.
  induction l as [|x l IH]; intros Hnd; [constructor|].
  cbn in Hnd. apply NoDup_cons in Hnd as [Hnotin Hnd].
  rewrite filter_cons. destruct (decide (P x)); [|by apply IH].
  cbn. apply NoDup_cons. split; [|by apply IH].
  intros Hin. apply Hnotin. apply list_elem_of_fmap in Hin as [y [-> Hy]].
  apply list_elem_of_filter in Hy as [_ Hy]. apply list_elem_of_fmap. by exists y.
Qed.

(** What [rows.find(r => r.key === key)] finds among the rows [mget]
    selected, for a key that was part of the query. *)
Lemma find_select_live_in (all : list string) (now : Z) (t : gmap string Columns)
    (k : string) :
  k ∈ all ->
  List.find (fun r => bool_decide (key r = k)) (sql_select_live_in all now t)
  = match t !! k with
    | Some c => if bool_decide (col_expire_at c > now) then Some (row_of k c) else None
    | None => None
    end.
Proof.
  intros Hk. unfold sql_select_live_in.
  match goal with |- context [ (_ <$> ?l) ] => set (l0 := l) end.
  assert (Hnd : NoDup l0.*1)
    by (subst l0; apply NoDup_fst_filter, NoDup_fst_map_to_list).
  assert (Hmem : forall c', (k, c') ∈ l0 <-> t !! k = Some c' /\ col_expire_at c' > now).
  { intros c'. subst l0. rewrite list_elem_of_filter, elem_of_map_to_list. cbn.
    rewrite andb_True, !bool_decide_spec. tauto. }
  clearbody l0. rewrite find_row_by_key by exact Hnd.
  destruct (t !! k) as [c|] eqn:E.
  - case_bool_decide as Hlive.
    + rewrite (find_pair_by_key _ k c Hnd); [reflexivity|]. by apply Hmem.
    + rewrite find_pair_by_key_None; [reflexivity|].
      intros c' Hin. apply Hmem in Hin as [[= <-] Hin]. done.
  - rewrite find_pair_by_key_None; [reflexivity|].
    intros c' Hin. apply Hmem in Hin as [Hin _]. discriminate.
Qed.

Lemma mget_slots_spec (st : Store) (all : list string) (now : Z)
    (t : gmap string Columns) (ks : list string) :
  (forall k, k ∈ ks -> k ∈ all) ->
  forall w : World,
    mget_slots st (sql_select_live_in all now t) ks w
    = (outcome_of (slots st t now ks), w).
Proof.
  induction ks as [|k rest IH]; intros Hsub w; [reflexivity|].
  cbn [mget_slots slots]. unfold slot.
  rewrite find_select_live_in by (apply Hsub, elem_of_cons; by left).
  assert (Hrest : forall k', k' ∈ rest -> k' ∈ all)
    by (intros k' Hk'; apply Hsub, elem_of_cons; by right).
  specialize (IH Hrest).
  assert (Hmiss : forall w0 : World,
             (v ← mret JUndefined;
              vs ← mget_slots st (sql_select_live_in all now t) rest;
              mret (v :: vs)) w0
             = (outcome_of match slots st t now rest with
                           | inl e => inl e
                           | inr vs => inr (JUndefined :: vs)
                           end, w0)).
  { intros w0. js_unfold. rewrite IH. destruct (slots st t now rest); reflexivity. }
  destruct (t !! k) as [c|]; [|apply Hmiss].
  destruct (bool_decide _); [|apply Hmiss].
  cbn [val row_of]. js_unfold.
  destruct (deserialize _ _) as [e|v]; [reflexivity|].
  unfold mret, Js_ret. rewrite IH. destruct (slots st t now rest); reflexivity.
Qed.

Lemma mget_run (st : Store) (ks : list string) (w : World) :
  mget st ks w =
    (outcome_of (slots st (table (purge_world w)) (clock w (S (reads w))) ks),
     after_read w).
Proof.
  unfold mget. unfold mbind at 1, Js_bind at 1. rewrite purgeExpired_run.
  pose proof (purge_world_clock w) as Hc. pose proof (purge_world_reads w) as Hr.
  js_unfold. rewrite Hc, Hr.
  rewrite mget_slots_spec by done. unfold after_read, advance. cbn.
  rewrite Hc, Hr. reflexivity.
Qed.

(** The sweep at the start of a read only removes rows the query that
    follows would not have selected. *)
Lemma slot_after_sweep (st : Store) (k : string) (w : World) :
  monotone (clock w) ->
  slot st (table (purge_world w)) (clock w (S (reads w))) k
  = slot st (table w) (clock w (S (reads w))) k.
Proof.
  intros Hmono.
  assert (H01 : clock w (reads w) <= clock w (S (reads w))) by (apply Hmono; lia).
  unfold slot.
  destruct (table (purge_world w) !! k) as [c|] eqn:Ep.
  - apply purge_world_lookup in Ep as [-> _]. reflexivity.
  - destruct (table w !! k) as [c|] eqn:E; [|reflexivity].
    case_bool_decide as Hlive; [|reflexivity].
    assert (table (purge_world w) !! k = Some c) as Hp; [|congruence].
    apply purge_world_lookup. split; [exact E|]. intros _. lia.
Qed.

Lemma slots_after_sweep (st : Store) (ks : list string) (w : World) :
  monotone (clock w) ->
  slots st (table (purge_world w)) (clock w (S (reads w))) ks
  = slots st (table w) (clock w (S (reads w))) ks.
Proof.
  intros Hmono. induction ks as [|k rest IH]; [reflexivity|].
  cbn [slots]. rewrite slot_after_sweep by exact Hmono. by rewrite IH.
Qed.

Lemma slots_length (st : Store) (t : gmap string Columns) (now : Z) (ks : list string) :
  forall vs, slots st t now ks = inr vs -> length vs = length ks.
Proof.
  induction ks as [|k rest IH]; intros vs; cbn [slots].
  - by intros [= <-].
  - destruct (slot st t now k); [discriminate|].
    destruct (slots st t now rest) as [|vs']; [discriminate|].
    intros [= <-]. cbn. f_equal. by apply IH.
Qed.

Lemma slots_lookup (st : Store) (t : gmap string Columns) (now : Z) (ks : list string) :
  forall (vs : list JsValue) (i : nat) (k : string),
    slots st t now ks = inr vs -> ks !! i = Some k ->
    exists v, vs !! i = Some v /\ slot st t now k = inr v.
Proof.
  induction ks as [|k0 rest IH]; intros vs i k; cbn [slots]; [by intros _ ?|].
  destruct (slot st t now k0) as [|v0] eqn:E0; [discriminate|].
  destruct (slots st t now rest) as [|vs'] eqn:Er; [discriminate|].
  intros [= <-]. destruct i as [|i]; cbn.
  - intros [= <-]. eauto.
  - intros Hi. by eapply IH.
Qed.

Lemma slots_throws (st : Store) (t : gmap string Columns) (now : Z) (ks : list string) :
  (exists e, slots st t now ks = inl e) <->
  (exists k e, k ∈ ks /\ slot st t now k = inl e).
Proof.
  induction ks as [|k0 rest IH]; cbn [slots].
  - split; [intros [e [=]] | intros (k & e & Hin & _); by apply elem_of_nil in Hin].
  - destruct (slot st t now k0) as [e0|v0] eqn:E0.
    + split; [intros _ | eauto]. exists k0, e0. split; [by left | exact E0].
    + split.
      * intros [e He]. destruct (slots st t now rest) as [e'|]; [|discriminate].
        destruct (proj1 IH (ex_intro _ e' eq_refl)) as (k & e1 & Hin & Hk).
        exists k, e1. split; [by right | exact Hk].
      * intros (k & e & Hin & Hk). apply elem_of_cons in Hin as [->|Hin]; [congruence|].
        destruct (proj2 IH (ex_intro _ k (ex_intro _ e (conj Hin Hk)))) as [e' He'].
        rewrite He'. eauto.
Qed.

(** ** Properties of the read path *)

(** X1: what [get] answers is decided by the stored row and the clock
    alone: a hit, decoded, exactly when the row of [k] is stored with
    [expire_at] above the query time, [undefined] otherwise; whether the
    sweep ran makes no difference. *)
Theorem get_answer (st : Store) (k : string) (w : World) :
  monotone (clock w) ->
  fst (get st k w) =
    match table w !! k with
    | Some c =>
        if bool_decide (col_expire_at c > clock w (S (reads w)))
        then outcome_of (deserialize (serializerAdapter st) (col_val c))
        else Return JUndefined
    | None => Return JUndefined
    end.
Proof.
  intros Hmono. rewrite get_slot. cbn [fst].
  rewrite slot_after_sweep by exact Hmono. unfold slot.
  destruct (table w !! k) as [c|]; [|reflexivity].
  destruct (bool_decide _); reflexivity.
Qed.

Lemma get_answer_witness :
  let w := mkWorld {["foo"%string := mkColumns (PText "v") T0 (T0 + 1000)]}
             0 (ticking T0) 0 in
  fst (get sample_store "foo" w) =
    match table w !! "foo"%string with
    | Some c =>
        if bool_decide (col_expire_at c > clock w (S (reads w)))
        then outcome_of (deserialize (serializerAdapter sample_store) (col_val c))
        else Return JUndefined
    | None => Return JUndefined
    end.
Proof.
  apply (get_answer sample_store "foo"
           (mkWorld {["foo"%string := mkColumns (PText "v") T0 (T0 + 1000)]}
              0 (ticking T0) 0)).
  intros i j Hij. cbn. unfold ticking. lia.
Defined.

(** X2: [mget] answers position by position what [get] answers for the key
    at that position in the same state: the result has the length of the
    key list, repeated keys included, and leaves the same state behind. *)
Theorem mget_agrees_with_get (st : Store) (ks : list string) (vs : list JsValue)
    (w w' : World) :
  mget st ks w = (Return vs, w') ->
  length vs = length ks /\
  forall (i : nat) (k : string),
    ks !! i = Some k ->
    exists v, vs !! i = Some v /\ get st k w = (Return v, w').
Proof.
  rewrite mget_run.
  destruct (slots st _ _ ks) as [e|vs0] eqn:E; cbn [outcome_of]; [discriminate|].
  intros [= <- <-]. split; [by eapply slots_length|].
  intros i k Hi. destruct (slots_lookup _ _ _ _ _ _ _ E Hi) as [v [Hv Hs]].
  exists v. split; [exact Hv|]. rewrite get_slot, Hs. reflexivity.
Qed.

Lemma mget_agrees_with_get_witness :
  let w := mkWorld {["a"%string := mkColumns (PBytes [1]) T0 (T0 + 1000)]}
             T0 (ticking T0) 0 in
  length [JNum 1; JUndefined; JNum 1] = length ["a"%string; "zz"%string; "a"%string] /\
  forall (i : nat) (k : string),
    ["a"%string; "zz"%string; "a"%string] !! i = Some k ->
    exists v, [JNum 1; JUndefined; JNum 1] !! i = Some v /\
              get sample_store k w = (Return v, after_read w).
Proof.
  intros w.
  apply (mget_agrees_with_get sample_store ["a"%string; "zz"%string; "a"%string]
           [JNum 1; JUndefined; JNum 1] w (after_read w)).
  reflexivity.
Defined.

(** X3: [mget] throws exactly when [get] would throw for one of its keys:
    a single live row that does not decode fails the whole batch read. *)
Theorem mget_throws_iff_some_get_throws (st : Store) (ks : list string) (w : World) :
  (exists e, fst (mget st ks w) = Throw e) <->
  (exists k e, k ∈ ks /\ fst (get st k w) = Throw e).
Proof.
  rewrite mget_run. cbn [fst].
  set (t := table (purge_world w)). set (now := clock w (S (reads w))).
  split.
  - intros [e He]. destruct (slots st t now ks) as [e'|] eqn:E; [|discriminate].
    destruct (proj1 (slots_throws st t now ks) (ex_intro _ e' E)) as (k & e1 & Hin & Hk).
    exists k, e1. split; [exact Hin|]. rewrite get_slot. cbn [fst]. fold t now.
    by rewrite Hk.
  - intros (k & e & Hin & Hk). rewrite get_slot in Hk. cbn [fst] in Hk. fold t now in Hk.
    destruct (slot st t now k) as [e1|] eqn:Es; [|discriminate].
    destruct (proj2 (slots_throws st t now ks)
                (ex_intro _ k (ex_intro _ e1 (conj Hin Es)))) as [e' He'].
    rewrite He'. eauto.
Qed.

(** X4: the answers of [get] and [mget] do not depend on the purge cursor:
    two states with the same table, clock and clock position answer alike,
    whenever either of them last swept. *)
Theorem reads_ignore_purge_cursor (st : Store) (k : string) (ks : list string)
    (w1 w2 : World) :
  monotone (clock w1) ->
  table w2 = table w1 -> clock w2 = clock w1 -> reads w2 = reads w1 ->
  fst (get st k w2) = fst (get st k w1) /\
  fst (mget st ks w2) = fst (mget st ks w1).
Proof.
  intros Hmono Ht Hc Hr.
  assert (Hmono2 : monotone (clock w2)) by (by rewrite Hc).
  rewrite !get_slot, !mget_run. cbn [fst].
  rewrite (slot_after_sweep st k w1), (slot_after_sweep st k w2) by assumption.
  rewrite (slots_after_sweep st ks w1), (slots_after_sweep st ks w2) by assumption.
  by rewrite Ht, Hc, Hr.
Qed.

Lemma reads_ignore_purge_cursor_witness :
  let t : gmap string Columns := {["a"%string := mkColumns (PBytes [1]) T0 (T0 - 5)]} in
  fst (get sample_store "a" (mkWorld t 0 (ticking T0) 0))
  = fst (get sample_store "a" (mkWorld t T0 (ticking T0) 0)) /\
  fst (mget sample_store ["a"%string] (mkWorld t 0 (ticking T0) 0))
  = fst (mget sample_store ["a"%string] (mkWorld t T0 (ticking T0) 0)).
Proof.
  apply (reads_ignore_purge_cursor sample_store "a" ["a"%string]
           (mkWorld {["a"%string := mkColumns (PBytes [1]) T0 (T0 - 5)]} T0 (ticking T0) 0)
           (mkWorld {["a"%string := mkColumns (PBytes [1]) T0 (T0 - 5)]} 0 (ticking T0) 0)).
  - intros i j Hij. cbn. unfold ticking. lia.
  - reflexivity.
  - reflexivity.
  - reflexivity.
Defined.

(** ** The sweep *)

Lemma sweep_due_true (w : World) :
  sweep_due w = true <-> clock w (reads w) - lastPurgeTime w >= 60 * 60 * 1000.
Proof. unfold sweep_due. by rewrite bool_decide_eq_true. Qed.

Lemma purge_world_swept (w : World) : swept_from w (purge_world w).
Proof.
  intros k c. rewrite purge_world_lookup, sweep_due_true. reflexivity.
Qed.

(** X5: [purgeExpired] is gated by the cursor.  Less than an hour after the
    last sweep it leaves table and cursor alone; otherwise it moves the
    cursor to now and keeps exactly the rows with [expire_at >= now],
    unaltered.  Either way it reads the clock once and returns. *)
Theorem purgeExpired_gate (w : World) :
  exists w',
    purgeExpired w = (Return tt, w') /\
    clock w' = clock w /\ reads w' = S (reads w) /\
    (clock w (reads w) - lastPurgeTime w < 60 * 60 * 1000 ->
     table w' = table w /\ lastPurgeTime w' = lastPurgeTime w) /\
    (clock w (reads w) - lastPurgeTime w >= 60 * 60 * 1000 ->
     lastPurgeTime w' = clock w (reads w) /\
     forall (k : string) (c : Columns),
       table w' !! k = Some c <->
       table w !! k = Some c /\ clock w (reads w) <= col_expire_at c).
Proof.
  exists (purge_world w). split; [apply purgeExpired_run|].
  split; [apply purge_world_clock|]. split; [apply purge_world_reads|].
  unfold purge_world, sweep_due. split.
  - intros Hnot. rewrite bool_decide_eq_false_2 by lia. by cbn.
  - intros Hdue. rewrite bool_decide_eq_true_2 by exact Hdue. cbn. split; [reflexivity|].
    intros k c. unfold sql_delete_expired. rewrite map_lookup_filter_Some. cbn.
    split; intros [H1 H2]; split; auto; lia.
Qed.

(** X6: the read operations change the table by that sweep and nothing
    else: after [get], [mget], [keys] or [ttl] every stored row is a row
    that was stored before, unaltered, and a row is missing only if the
    sweep was due and its [expire_at] was below the time read. *)
Theorem reads_only_sweep (st : Store) (k : string) (ks : list string) (w : World) :
  swept_from w (snd (get st k w)) /\
  swept_from w (snd (mget st ks w)) /\
  swept_from w (snd (keys w)) /\
  swept_from w (snd (ttlFn k w)).
Proof.
  rewrite get_slot, mget_run, ttlFn_run. cbn [snd].
  assert (Hk : snd (keys w) = purge_world w).
  { unfold keys. unfold mbind at 1, Js_bind at 1. rewrite purgeExpired_run.
    js_unfold. reflexivity. }
  rewrite Hk. unfold after_read.
  split; [|split; [|split]]; try apply purge_world_swept.
  destruct (table (purge_world w) !! k); cbn [snd]; apply purge_world_swept.
Qed.

(** ** Properties of single writes *)

(** X7: with an effective TTL that is not negative, [set] of a value the
    cacheability predicate rejects throws [NoCacheableError] and leaves the
    state untouched: no row, no clock reading, no sweep.  For the values the
    default predicate rejects the message is the value between double
    quotes followed by [is not a cacheable value]: [undefined], [null], or
    the source text of the function. *)
Theorem set_refuses_rejected_value (st : Store) (k : string) (v : JsValue)
    (ttl : option Z) (w : World) :
  isCacheable st v = false ->
  0 <= ttl_millis st ttl ->
  exists message,
    set st k v ttl w = (Throw (NoCacheableError message), w) /\
    (v = JUndefined ->
     message = (dquote ++ "undefined" ++ dquote ++ " is not a cacheable value")%string) /\
    (v = JNull ->
     message = (dquote ++ "null" ++ dquote ++ " is not a cacheable value")%string) /\
    (forall source, v = JFun source ->
     message = (dquote ++ source ++ dquote ++ " is not a cacheable value")%string).
Proof.
  intros Hv Httl. exists (not_cacheable_message v). split.
  - rewrite set_run. rewrite bool_decide_eq_false_2 by lia. by rewrite Hv.
  - split; [|split]; [intros -> | intros -> | intros source ->]; reflexivity.
Qed.

Lemma set_refuses_rejected_value_witness :
  exists message,
    set sample_store "k" (JFun "() => {}") None (fresh_world ∅ (ticking T0))
    = (Throw (NoCacheableError message), fresh_world ∅ (ticking T0)) /\
    (JFun "() => {}" = JUndefined ->
     message = (dquote ++ "undefined" ++ dquote ++ " is not a cacheable value")%string) /\
    (JFun "() => {}" = JNull ->
     message = (dquote ++ "null" ++ dquote ++ " is not a cacheable value")%string) /\
    (forall source, JFun "() => {}" = JFun source ->
     message = (dquote ++ source ++ dquote ++ " is not a cacheable value")%string).
Proof.
  apply (set_refuses_rejected_value sample_store "k" (JFun "() => {}") None
           (fresh_world ∅ (ticking T0))).
  - reflexivity.
  - vm_compute. discriminate.
Defined.

(** X8: whatever its outcome, [set(k, ...)] never moves the purge cursor and
    never touches the row of another key; and when it does not return
    normally it leaves the whole table as it was. *)
Theorem set_touches_only_its_key (st : Store) (k : string) (v : JsValue)
    (ttl : option Z) (w : World) :
  lastPurgeTime (snd (set st k v ttl w)) = lastPurgeTime w /\
  clock (snd (set st k v ttl w)) = clock w /\
  (forall k' : string, k' <> k ->
     table (snd (set st k v ttl w)) !! k' = table w !! k') /\
  (fst (set st k v ttl w) <> Return tt ->
   table (snd (set st k v ttl w)) = table w).
Proof.
  rewrite set_run.
  destruct (bool_decide _); [by cbn|].
  destruct (negb _); [by cbn|].
  destruct (serialize _ _) as [e|b]; cbn; [done|].
  split; [reflexivity|]. split; [reflexivity|]. split; [|done].
  intros k' Hk'. by apply lookup_insert_ne.
Qed.

(** A [set] that gets to write: the run spelled out. *)
Lemma set_writes (st : Store) (k : string) (v : JsValue) (b : Payload)
    (ttl : option Z) (w : World) :
  isCacheable st v = true ->
  serialize (serializerAdapter st) v = inr b ->
  0 <= ttl_millis st ttl ->
  set st k v ttl w =
    (Return tt,
     advance 2
       (<[k := mkColumns b (clock w (S (reads w)))
                 (clock w (reads w) + ttl_millis st ttl)]> (table w)) w).
Proof.
  intros Hc Hser Httl. rewrite set_run.
  rewrite bool_decide_eq_false_2 by lia. by rewrite Hc, Hser.
Qed.



(** X10: a written entry is a hit strictly before its expiry and a miss from
    its expiry on.  After [set(k, v, ttl)] of a value the codec round-trips,
    any later [get(k)] that still finds the row returns [v] if the time it
    reads for its query is below [expire_at] (the time [set] read plus the
    TTL) and [undefined] otherwise. *)
Theorem get_after_set_hits_until_expiry (st : Store) (k : string) (v : JsValue)
    (b : Payload) (ttl : option Z) (w w2 : World) :
  monotone (clock w) ->
  isCacheable st v = true ->
  serialize (serializerAdapter st) v = inr b ->
  deserialize (serializerAdapter st) b = inr v ->
  0 <= ttl_millis st ttl ->
  table w2 !! k = table (snd (set st k v ttl w)) !! k ->
  clock w2 = clock w ->
  fst (get st k w2) =
    if bool_decide (clock w (S (reads w2)) < clock w (reads w) + ttl_millis st ttl)
    then Return v else Return JUndefined.
Proof.
  intros Hmono Hc Hser Hdes Httl Hrow Hclk.
  rewrite (set_writes st k v b ttl w Hc Hser Httl) in Hrow. cbn in Hrow.
  rewrite lookup_insert_eq in Hrow.
  rewrite get_slot. cbn [fst].
  rewrite slot_after_sweep by (by rewrite Hclk).
  unfold slot. rewrite Hrow, Hclk. cbn [col_expire_at col_val].
  case_bool_decide; case_bool_decide; try lia; [by rewrite Hdes | reflexivity].
Qed.

Lemma get_after_set_hits_until_expiry_witness :
  let w := fresh_world ∅ (ticking T0) in
  let w2 := mkWorld (table (snd (set sample_store "baz" (JNum 3) (Some 1) w)))
              0 (ticking T0) 1100 in
  fst (get sample_store "baz" w2) =
    if bool_decide (clock w (S (reads w2)) < clock w (reads w) + ttl_millis sample_store (Some 1))
    then Return (JNum 3) else Return JUndefined.
Proof.
  intros w w2.
  apply (get_after_set_hits_until_expiry sample_store "baz" (JNum 3) (PBytes [3])
           (Some 1) w w2).
  - intros i j Hij. cbn. unfold ticking. lia.
  - reflexivity.
  - reflexivity.
  - reflexivity.
  - vm_compute. discriminate.
  - reflexivity.
  - reflexivity.
Defined.

(** X11: [ttl(k)] right after a [set(k, v, ttl)] that wrote returns what is
    left of the TTL: the expiry computed by [set] minus the time [ttl]
    reads, provided the entry has not already expired when [ttl] starts and
    the times involved (the two clock readings and the expiry) are within
    [safe_time]. *)
Theorem ttl_after_set (st : Store) (k : string) (v : JsValue) (b : Payload)
    (ttl : option Z) (w : World) :
  isCacheable st v = true ->
  serialize (serializerAdapter st) v = inr b ->
  0 <= ttl_millis st ttl ->
  safe_time (clock w (reads w)) ->
  safe_time (clock w (reads w) + ttl_millis st ttl) ->
  safe_time (clock w (3 + reads w)%nat) ->
  clock w (2 + reads w)%nat <= clock w (reads w) + ttl_millis st ttl ->
  fst ((set st k v ttl;; ttlFn k) w)
  = Return (clock w (reads w) + ttl_millis st ttl - clock w (3 + reads w)%nat).
Proof.
  intros Hc Hser Httl _ _ _ Hlive.
  unfold mbind, Js_bind. rewrite (set_writes st k v b ttl w Hc Hser Httl).
  rewrite ttlFn_run. cbn zeta.
  set (c := mkColumns b (clock w (S (reads w))) (clock w (reads w) + ttl_millis st ttl)).
  set (w1 := advance 2 (<[k:=c]> (table w)) w).
  assert (Hp : table (purge_world w1) !! k = Some c).
  { apply purge_world_lookup. split; [apply lookup_insert_eq|]. intros _. exact Hlive. }
  rewrite Hp. reflexivity.
Qed.

Lemma ttl_after_set_witness :
  let w := fresh_world ∅ (ticking T0) in
  fst ((set sample_store "foo" (JNum 1) None;; ttlFn "foo") w)
  = Return (clock w (reads w) + ttl_millis sample_store None - clock w (3 + reads w)%nat).
Proof.
  apply (ttl_after_set sample_store "foo" (JNum 1) (PBytes [1]) None
           (fresh_world ∅ (ticking T0))).
  - reflexivity.
  - reflexivity.
  - vm_compute. discriminate.
  - vm_compute. split; discriminate.
  - vm_compute. split; discriminate.
  - vm_compute. split; discriminate.
  - vm_compute. discriminate.
Defined.

(** ** Properties of batch writes *)

Lemma lookup_upsert_many_notin (rows : list CacheRow) :
  forall (t : gmap string Columns) (k : string),
    k ∉ key <$> rows -> sql_upsert_many rows t !! k = t !! k.
Proof.
  induction rows as [|r rows IH]; intros t k Hk; [reflexivity|].
  cbn in Hk. apply not_elem_of_cons in Hk as [Hne Hk].
  cbn. unfold sql_upsert_many in IH. rewrite IH by exact Hk.
  unfold sql_upsert. by apply lookup_insert_ne.
Qed.

(** The row a multi-row upsert leaves for a key is one of the rows bound
    for that key. *)
Lemma lookup_upsert_many_in (rows : list CacheRow) :
  forall (t : gmap string Columns) (k : string),
    k ∈ key <$> rows ->
    exists r, r ∈ rows /\ key r = k /\
              sql_upsert_many rows t !! k = Some (columns_of r).
Proof.
  induction rows as [|r rows IH]; intros t k Hk; [by apply elem_of_nil in Hk|].
  destruct (decide (k ∈ key <$> rows)) as [Hin|Hout].
  - destruct (IH (sql_upsert r t) k Hin) as (r' & Hr' & Hkey & Hl).
    exists r'. split; [by right|]. split; [exact Hkey | exact Hl].
  - cbn in Hk. apply elem_of_cons in Hk as [->|Hk]; [|done].
    exists r. split; [by left|]. split; [reflexivity|].
    cbn. fold (sql_upsert_many rows (sql_upsert r t)).
    rewrite lookup_upsert_many_notin by exact Hout.
    unfold sql_upsert. apply lookup_insert_eq.
Qed.

Lemma mset_bindings_ok (st : Store) (expireAt : Z) (pairs : list (string * JsValue)) :
  Forall (fun p => isCacheable st p.2 = true /\
                   exists b, serialize (serializerAdapter st) p.2 = inr b) pairs ->
  forall w : World,
    exists rows,
      mset_bindings st expireAt pairs w
      = (Return rows, advance (length pairs) (table w) w).
Proof.
  induction 1 as [|p rest [Hc [b Hb]] _ IH]; intros w.
  - exists []. cbn. unfold advance. by destruct w.
  - cbn [mset_bindings]. unfold mset_binding. rewrite Hc, Hb. js_unfold. cbn.
    destruct (IH (mkWorld (table w) (lastPurgeTime w) (clock w) (S (reads w))))
      as [rows Hrows].
    rewrite Hrows. eexists. unfold advance. cbn.
    by rewrite Nat.add_succ_r.
Qed.

Lemma mset_bindings_keys (st : Store) (expireAt : Z) (pairs : list (string * JsValue))
    (rows : list CacheRow) (w w' : World) :
  mset_bindings st expireAt pairs w = (Return rows, w') ->
  key <$> rows = pairs.*1.
Proof.
  intros H. apply mset_bindings_rows in H.
  induction H as [|p r ps rs [Hk _] _ IH]; [reflexivity|].
  cbn. by rewrite Hk, IH.
Qed.

(** X12: [mset] is all or nothing.  It never moves the purge cursor, never
    touches a key outside the batch, and when it does not return normally
    (a rejected value, a value that does not serialize, an empty batch) the
    table is exactly as before. *)
Theorem mset_all_or_nothing (st : Store) (pairs : list (string * JsValue))
    (ttl : option Z) (w : World) :
  lastPurgeTime (snd (mset st pairs ttl w)) = lastPurgeTime w /\
  (fst (mset st pairs ttl w) <> Return tt ->
   table (snd (mset st pairs ttl w)) = table w) /\
  (forall k : string, k ∉ pairs.*1 ->
     table (snd (mset st pairs ttl w)) !! k = table w !! k).
Proof.
  rewrite mset_run. destruct (bool_decide _); [by cbn|]. cbn zeta.
  set (expireAt := clock w (reads w) + ttl_millis st ttl).
  pose proof (mset_bindings_frame st expireAt pairs (advance 1 (table w) w)) as Hfr.
  cbn zeta in Hfr.
  destruct (mset_bindings st expireAt pairs _) as [[rows|e] w1] eqn:E;
    cbn in Hfr; destruct Hfr as (Ht & Hl & _).
  - apply mset_bindings_keys in E as Hkeys.
    destruct rows as [|r rows]; cbn [fst snd].
    + by rewrite Ht, Hl.
    + cbn [advance table lastPurgeTime]. split; [exact Hl|]. split; [done|].
      intros k Hk. rewrite <- Hkeys in Hk.
      rewrite lookup_upsert_many_notin by exact Hk. by rewrite Ht.
  - cbn. by rewrite Ht, Hl.
Qed.



(** The row an [mset] with distinct keys leaves for one of its pairs. *)
Lemma mset_row_of_pair (st : Store) (expireAt : Z) (pairs : list (string * JsValue))
    (rows : list CacheRow) (t : gmap string Columns) :
  NoDup pairs.*1 ->
  Forall2 (fun p r => key r = p.1 /\ expire_at r = expireAt /\
                      serialize (serializerAdapter st) p.2 = inr (val r)) pairs rows ->
  forall p, p ∈ pairs ->
    exists c, sql_upsert_many rows t !! p.1 = Some c /\
              col_expire_at c = expireAt /\
              serialize (serializerAdapter st) p.2 = inr (col_val c).
Proof.
  intros Hnd Hrows p Hp.
  assert (Hkeys : key <$> rows = pairs.*1).
  { clear Hnd Hp. induction Hrows as [|p0 r0 ps rs [Hk _] _ IH]; [reflexivity|].
    cbn. by rewrite Hk, IH. }
  assert (Hin : p.1 ∈ key <$> rows) by (rewrite Hkeys; by apply list_elem_of_fmap_2).
  destruct (lookup_upsert_many_in rows t _ Hin) as (r & Hr & Hkey & Hl).
  exists (columns_of r). split; [exact Hl|].
  apply list_elem_of_lookup in Hr as [i Hi].
  destruct (Forall2_lookup_r _ _ _ _ _ Hrows Hi) as (p' & Hi' & Hk' & He & Hs).
  apply list_elem_of_lookup in Hp as [j Hj].
  assert (i = j) as ->.
  { eapply NoDup_lookup; [exact Hnd | |].
    - rewrite list_lookup_fmap, Hi'. cbn. reflexivity.
    - rewrite list_lookup_fmap, Hj. cbn. by rewrite <- Hk', Hkey. }
  rewrite Hj in Hi'. injection Hi' as <-.
  split; [exact He | exact Hs].
Qed.

(** X15: a batch written by [mset] reads back through [mget] in order.  For
    distinct keys and values the predicate accepts and the codec
    round-trips, [mset(pairs, ttl)] followed at once by [mget] of the keys,
    the entries not yet expired when [mget] queries them, returns the
    values, position by position. *)
Theorem mset_then_mget_returns_values (st : Store) (pairs : list (string * JsValue))
    (ttl : option Z) (w : World) :
  monotone (clock w) ->
  pairs <> [] ->
  NoDup pairs.*1 ->
  Forall (fun p => isCacheable st p.2 = true /\
                   exists b, serialize (serializerAdapter st) p.2 = inr b /\
                             deserialize (serializerAdapter st) b = inr p.2) pairs ->
  clock w (2 + length pairs + reads w)%nat < clock w (reads w) + ttl_millis st ttl ->
  fst ((mset st pairs ttl;; mget st pairs.*1) w) = Return pairs.*2.
Proof.
  intros Hmono Hne Hnd Hall Hlive.
  assert (H0 : clock w (reads w) <= clock w (2 + length pairs + reads w)%nat)
    by (apply Hmono; lia).
  assert (Httl : 0 < ttl_millis st ttl) by lia.
  assert (Hlive' : forall e, e = clock w (reads w) + ttl_millis st ttl ->
                     e > clock w (2 + length pairs + reads w)%nat) by (intros; lia).
  set (expireAt := clock w (reads w) + ttl_millis st ttl) in *.
  specialize (Hlive' expireAt eq_refl).
  assert (Hser : Forall (fun p => isCacheable st p.2 = true /\
                   exists b, serialize (serializerAdapter st) p.2 = inr b) pairs).
  { eapply Forall_impl; [exact Hall|]. intros p (Hc & b & Hb & _). eauto. }
  destruct (mset_bindings_ok st expireAt pairs Hser (advance 1 (table w) w))
    as [rows Hrows].
  pose proof (mset_bindings_rows _ _ _ _ _ _ Hrows) as Hrel.
  assert (Hrne : rows <> []).
  { intros ->. apply Forall2_nil_inv_r in Hrel. done. }
  unfold mbind, Js_bind. rewrite mset_run.
  rewrite bool_decide_eq_false_2 by lia. cbn zeta. fold expireAt. rewrite Hrows.
  destruct rows as [|r0 rows0]; [done|].
  set (rows := r0 :: rows0) in *.
  set (w1 := advance 0 (sql_upsert_many rows _) _).
  assert (Hclk : clock w1 = clock w) by reflexivity.
  assert (Hreads : S (reads w1) = (2 + length pairs + reads w)%nat)
    by (subst w1; cbn; lia).
  rewrite mget_run. cbn [fst].
  rewrite slots_after_sweep by (by rewrite Hclk).
  rewrite Hclk, Hreads.
  assert (Hslots : forall ps, (forall p, p ∈ ps -> p ∈ pairs) ->
            slots st (table w1) (clock w (2 + length pairs + reads w)%nat) ps.*1
            = inr ps.*2).
  { induction ps as [|p ps IH]; intros Hsub; [reflexivity|].
    cbn [fmap list_fmap slots].
    assert (Hp : p ∈ pairs) by (apply Hsub; by left).
    destruct (mset_row_of_pair st expireAt pairs rows (table w)
                Hnd Hrel p Hp) as (c & Hl & He & Hs).
    unfold slot. subst w1. cbn [advance table]. rewrite Hl.
    rewrite bool_decide_eq_true_2 by (rewrite He; exact Hlive').
    apply (proj1 (Forall_forall _ _) Hall) in Hp as (_ & b & Hb & Hd).
    rewrite Hb in Hs. injection Hs as <-. rewrite Hd.
    cbn [advance table] in IH. rewrite IH; [reflexivity|].
    intros p' Hp'. apply Hsub. by right. }
  rewrite Hslots by done. reflexivity.
Qed.

Lemma mset_then_mget_returns_values_witness :
  let pairs := [("goo1"%string, JNum 1); ("goo2"%string, JNum 2); ("goo3"%string, JNum 3)] in
  fst ((mset sample_store pairs None;; mget sample_store pairs.*1)
         (fresh_world ∅ (ticking T0)))
  = Return pairs.*2.
Proof.
  apply (mset_then_mget_returns_values sample_store
           [("goo1"%string, JNum 1); ("goo2"%string, JNum 2); ("goo3"%string, JNum 3)]
           None (fresh_world ∅ (ticking T0))).
  - intros i j Hij. cbn. unfold ticking. lia.
  - discriminate.
  - apply (bool_decide_unpack _). vm_compute. exact I.
  - repeat (apply Forall_cons; split; [split; [reflexivity | eexists; split; reflexivity]|]).
    apply Forall_nil_2.
  - vm_compute. reflexivity.
Defined.

(** ** Deleting, resetting, listing *)

Lemma purge_world_lookup_eq (w1 w2 : World) (k : string) :
  clock w2 = clock w1 -> reads w2 = reads w1 -> lastPurgeTime w2 = lastPurgeTime w1 ->
  table w2 !! k = table w1 !! k ->
  table (purge_world w2) !! k = table (purge_world w1) !! k.
Proof.
  intros Hc Hr Hl Ht. apply option_eq. intros c.
  rewrite !purge_world_lookup. unfold sweep_due. by rewrite Hc, Hr, Hl, Ht.
Qed.

Lemma purge_world_empty (w : World) : table w = ∅ -> table (purge_world w) = ∅.
Proof.
  intros He. apply map_empty. intros k. apply purge_world_lookup_None.
  by rewrite He.
Qed.

Lemma slots_all_missing (st : Store) (t : gmap string Columns) (now : Z)
    (ks : list string) :
  (forall k, k ∈ ks -> t !! k = None) ->
  slots st t now ks = inr (replicate (length ks) JUndefined).
Proof.
  induction ks as [|k rest IH]; intros Hnone; [reflexivity|].
  cbn [slots]. unfold slot. rewrite Hnone by (by left).
  rewrite IH; [reflexivity|]. intros k' Hk'. apply Hnone. by right.
Qed.

Lemma lookup_delete_in (ks : list string) :
  forall (t : gmap string Columns) (k : string),
    sql_delete_in ks t !! k = if bool_decide (k ∈ ks) then None else t !! k.
Proof.
  induction ks as [|k0 rest IH]; intros t k; [reflexivity|].
  cbn. unfold sql_delete_in in IH. rewrite IH.
  destruct (decide (k ∈ rest)) as [Hin|Hout].
  - rewrite !bool_decide_eq_true_2; [reflexivity | by right | exact Hin].
  - rewrite (bool_decide_eq_false_2 _ Hout).
    destruct (decide (k = k0)) as [->|Hne].
    + rewrite bool_decide_eq_true_2 by (by left). apply lookup_delete_eq.
    + rewrite bool_decide_eq_false_2
        by (intros [?|?]%elem_of_cons; done).
      by apply lookup_delete_ne.
Qed.

(** X16: [del(k)] always returns normally; afterwards [get(k)] is a miss
    and the answer for every other key is what it was; deleting a key that
    has no row changes nothing at all. *)
Theorem del_removes_only_its_key (st : Store) (k k' : string) (w : World) :
  fst (del k w) = Return tt /\
  fst ((del k;; get st k) w) = Return JUndefined /\
  (k' <> k -> fst ((del k;; get st k') w) = fst (get st k' w)) /\
  (table w !! k = None -> del k w = (Return tt, w)).
Proof.
  set (wd := mkWorld (delete k (table w)) (lastPurgeTime w) (clock w) (reads w)).
  assert (Hdel : del k w = (Return tt, wd)) by reflexivity.
  split; [reflexivity|]. split; [|split].
  - unfold mbind, Js_bind. rewrite Hdel. apply get_miss.
    intros c. cbn. by rewrite lookup_delete_eq.
  - intros Hne. unfold mbind, Js_bind. rewrite Hdel, !get_slot. cbn [fst].
    unfold slot.
    assert (Hk' : table wd !! k' = table w !! k')
      by (subst wd; cbn; apply lookup_delete_ne; congruence).
    rewrite (purge_world_lookup_eq w wd k' eq_refl eq_refl eq_refl Hk').
    reflexivity.
  - intros Hnone. rewrite Hdel. subst wd. rewrite delete_id by exact Hnone.
    by destruct w.
Qed.

(** X17: [mdel(keys)] always returns normally and removes exactly the rows
    of the given keys, leaving every other row as it was; an [mget] of the
    same keys right after answers [undefined] at every position. *)
Theorem mdel_removes_exactly_its_keys (st : Store) (ks : list string) (k : string)
    (w : World) :
  fst (mdel ks w) = Return tt /\
  table (snd (mdel ks w)) !! k = (if bool_decide (k ∈ ks) then None else table w !! k) /\
  fst ((mdel ks;; mget st ks) w) = Return (replicate (length ks) JUndefined).
Proof.
  set (wd := mkWorld (sql_delete_in ks (table w)) (lastPurgeTime w) (clock w) (reads w)).
  assert (Hdel : mdel ks w = (Return tt, wd)) by reflexivity.
  rewrite Hdel. cbn [fst snd]. split; [reflexivity|]. split.
  - subst wd. cbn. apply lookup_delete_in.
  - unfold mbind, Js_bind. rewrite Hdel, mget_run. cbn [fst].
    rewrite slots_all_missing; [reflexivity|].
    intros k0 Hk0. apply purge_world_lookup_None. subst wd. cbn.
    rewrite lookup_delete_in. by rewrite bool_decide_eq_true_2.
Qed.

(** X18: [reset()] empties the store: right after it [keys()] returns the
    empty list, [get] of any key is a miss, [mget] answers [undefined] at
    every position and [ttl] of any key is [-1]. *)
Theorem reset_empties_store (st : Store) (k : string) (ks : list string) (w : World) :
  fst ((reset;; keys) w) = Return [] /\
  fst ((reset;; get st k) w) = Return JUndefined /\
  fst ((reset;; mget st ks) w) = Return (replicate (length ks) JUndefined) /\
  fst ((reset;; ttlFn k) w) = Return (-1).
Proof.
  set (w0 := mkWorld ∅ (lastPurgeTime w) (clock w) (reads w)).
  assert (Hempty : table (purge_world w0) = ∅) by (by apply purge_world_empty).
  assert (Hseq : forall A (m : Js A), (reset;; m) w = m w0) by reflexivity.
  rewrite !Hseq.
  split; [|split; [|split]].
  - unfold keys. unfold mbind at 1, Js_bind at 1. rewrite purgeExpired_run.
    js_unfold. rewrite Hempty. unfold sql_select_keys. by rewrite map_to_list_empty.
  - apply get_miss. intros c. cbn. by rewrite lookup_empty.
  - rewrite mget_run. cbn [fst]. rewrite slots_all_missing; [reflexivity|].
    intros k0 _. by rewrite Hempty, lookup_empty.
  - rewrite ttlFn_run. cbn zeta. by rewrite Hempty, lookup_empty.
Qed.

(** X19: [keys()] returns every key left by its sweep exactly once: a key
    is listed if and only if its row was stored and the sweep, if due, did
    not find its [expire_at] below the time read; the list has no
    duplicates, so it has as many entries as the table has rows after the
    sweep. *)
Theorem keys_are_distinct (w : World) :
  exists ks w',
    keys w = (Return ks, w') /\
    NoDup ks /\
    (forall k : string,
       k ∈ ks <->
       exists c, table w !! k = Some c /\
                 (clock w (reads w) - lastPurgeTime w >= 60 * 60 * 1000 ->
                  clock w (reads w) <= col_expire_at c)) /\
    (forall k : string, k ∈ ks <-> is_Some (table w' !! k)) /\
    length ks = size (table w').
Proof.
  exists (key <$> sql_select_keys (table (purge_world w))), (purge_world w).
  split.
  - unfold keys. unfold mbind at 1, Js_bind at 1. rewrite purgeExpired_run.
    js_unfold. reflexivity.
  - unfold sql_select_keys. rewrite <- list_fmap_compose.
    assert (Hmem : forall k : string,
              k ∈ (key ∘ (fun kc : string * Columns => row_of kc.1 kc.2))
                    <$> map_to_list (table (purge_world w))
              <-> is_Some (table (purge_world w) !! k)).
    { intros k. rewrite list_elem_of_fmap. split.
      - intros [[k' c] [-> Hin]]. cbn. apply elem_of_map_to_list in Hin. eauto.
      - intros [c Hc]. exists (k, c). split; [reflexivity|].
        by apply elem_of_map_to_list. }
    split; [apply NoDup_fst_map_to_list|]. split; [|split].
    + intros k. rewrite Hmem. split.
      * intros [c Hc]. exists c. by apply purge_world_swept.
      * intros [c Hc]. exists c. by apply purge_world_swept.
    + exact Hmem.
    + rewrite length_fmap. apply length_map_to_list.
Qed.

(** ** Configuration *)

(** X20: the store is built with [defaultTtl = ttl * 1000], whatever the
    sign of the configured [ttl].  With a negative configured [ttl], every
    [set] and [mset] that passes no TTL of its own returns normally and does
    nothing, rejected values included; a TTL passed to the call takes
    precedence over the configured one. *)
Theorem negative_configured_ttl_disables_default_writes
    (JSON_stringify : JsValue -> Exn + Payload) (JSON_parse : Payload -> Exn + JsValue)
    (encode : JsValue -> Exn + Payload) (decode : Payload -> Exn + JsValue)
    (options : SqliteCacheOptions) (s : Z) (k : string) (v : JsValue)
    (pairs : list (string * JsValue)) (w : World) :
  let st := bunSqliteStore JSON_stringify JSON_parse encode decode options in
  opt_ttl options = Some s ->
  s < 0 ->
  set st k v None w = (Return tt, w) /\
  mset st pairs None w = (Return tt, w) /\
  forall s', ttl_millis st (Some s') = s' * 1000.
Proof.
  intros st Hopt Hneg.
  assert (Hd : ttl_millis st None = s * 1000).
  { subst st. unfold bunSqliteStore. cbn. by rewrite Hopt. }
  split; [|split; [|reflexivity]].
  - rewrite set_run. by rewrite bool_decide_eq_true_2 by lia.
  - rewrite mset_run. by rewrite bool_decide_eq_true_2 by lia.
Qed.

Lemma negative_configured_ttl_disables_default_writes_witness :
  let st := bunSqliteStore sample_stringify sample_parse sample_stringify sample_parse
              (mkOptions None None (Some json) (Some (-1)) None) in
  let w := fresh_world ∅ (ticking T0) in
  set st "k" JNull None w = (Return tt, w) /\
  mset st [("a"%string, JNum 1)] None w = (Return tt, w) /\
  forall s', ttl_millis st (Some s') = s' * 1000.
Proof.
  apply (negative_configured_ttl_disables_default_writes
           sample_stringify sample_parse sample_stringify sample_parse
           (mkOptions None None (Some json) (Some (-1)) None) (-1) "k" JNull
           [("a"%string, JNum 1)] (fresh_world ∅ (ticking T0))).
  - reflexivity.
  - lia.
Defined.
